(** * Curved path synthesis: a shallow embedding of [curved_path_calculation.py]

    The script grows a turn-rate-limited segment from a start point towards a
    target ([calculate_path_segment]) and reconciles a forward and a backward
    segment into one path ([generate_complete_path]).

    Numbers.  Python floats are modelled as exact rationals ([Q]); rounding,
    infinities and NaN are outside the model.  Equality tests of the source
    ([==]) are numeric equality ([Qeq_bool]).  Where rounding matters the
    statements are kept to what holds on doubles as well: on doubles
    [x % 360] can round up to [360.0], so line 27 can return [180.0], and
    sums of headings are rounded, so intervals are stated closed and no
    exact identity between recomputed headings is claimed.

    Geodesic oracle.  [geographiclib]'s [Geodesic.WGS84] is an external
    library: it is a parameter of the development, a record with the two
    operations the script calls.  Every theorem below holds for every
    oracle; concrete runs use a small deterministic stub. *)

From Stdlib Require Import QArith Qabs Qround Qreduction Qminmax ZArith List Bool Lia Lqa.
Import ListNotations.

Local Open Scope Q_scope.

(** ** Python and NumPy primitives used by the script *)

Module Py.

(** [int(x)]: truncation towards zero. *)
Definition int (x : Q) : Z := Z.quot (Qnum x) (Z.pos (Qden x)).

(** [x % m] on floats: the result has the sign of [m],
    [x - m * floor(x / m)]. *)
Definition mod_ (x m : Q) : Q := x - m * inject_Z (Qfloor (x / m)).

(** [x < y]. *)
Definition ltb (x y : Q) : bool := negb (Qle_bool y x).

(** [min(a, b)]: the first argument unless the second is smaller. *)
Definition min (a b : Q) : Q := if ltb b a then b else a.

(** [max(a, b)] on integers: the first argument unless the second is
    larger. *)
Definition max (a b : Z) : Z := if (a <? b)%Z then b else a.

(** [np.sign(x)]. *)
Definition sign (x : Q) : Q :=
  match Qnum x with
  | Z0 => 0
  | Zpos _ => 1
  | Zneg _ => -1
  end.

(** [l[0]] and [l[-1]].  Both raise [IndexError] on an empty list; the
    script only indexes lists that start out with one element and are
    only appended to (see [segment_loop_nonempty]), so the default is
    never returned. *)
Definition first (l : list Q) : Q := hd 0 l.
Definition last (l : list Q) : Q := List.last l 0.

End Py.

(** ** Constants and configuration (lines 6-10) *)

Definition LAT_A : Q := 4964 # 100.
Definition LON_A : Q := 614 # 100.
Definition LAT_B : Q := 5002 # 100.
Definition LON_B : Q := 493 # 100.
Definition MAX_TURN_RATE : Q := 3.
Definition POINT_INTERVAL_METERS : Q := 300.

(** ** The geodesic oracle *)

(** The dictionary returned by [geod.Inverse], restricted to the keys the
    script reads. *)
Record InverseResult : Set := mkInverse { s12 : Q; azi1 : Q }.

(** The dictionary returned by [geod.Direct], restricted to the keys the
    script reads. *)
Record DirectResult : Set := mkDirect { lat2 : Q; lon2 : Q }.

Record Geodesic : Type := mkGeodesic {
  Inverse : Q -> Q -> Q -> Q -> InverseResult;
  Direct : Q -> Q -> Q -> Q -> DirectResult
}.

(** ** The segment stepper (lines 12-39) *)

(** Line 27: the signed difference between the bearing to the target and the
    running heading. *)
Definition heading_change (target_heading heading : Q) : Q :=
  Py.mod_ (target_heading - heading + 180) 360 - 180.

(** Line 28: the amount added to the running heading. *)
Definition heading_step (change : Q) : Q :=
  Py.min MAX_TURN_RATE (Qabs change) * Py.sign change.

(** Line 36: the early-termination test. *)
Definition close_enough (heading end_heading : Q) : bool :=
  Py.ltb (Qabs (heading - end_heading)) (1 # 10).

(** One record per executed loop iteration.  The log is ghost state: the
    script does not build it, it records the values the iteration computed
    so that statements about "every step" can be written down. *)
Record Step : Set := mkStep {
  step_target : Q;     (* g['azi1'] *)
  step_before : Q;     (* heading on entry *)
  step_change : Q;     (* heading_change *)
  step_applied : Q;    (* the amount added to heading *)
  step_direct : Q;     (* the heading argument of geod.Direct *)
  step_distance : Q;   (* the distance argument of geod.Direct *)
  step_broke : bool    (* whether the iteration ended in break *)
}.

Section Stepper.

Variable geod : Geodesic.

Section Loop.

Variables end_lat end_lon end_heading step_distance_ : Q.

(** Lines 22-37, the [for _ in range(n_points)] loop; [fuel] is the
    number of iterations left. *)
Fixpoint segment_loop (fuel : nat) (lats lons : list Q) (heading : Q)
         (log : list Step) : list Q * list Q * list Step :=
  match fuel with
  | O => (lats, lons, log)
  | S fuel' =>
      let g := Inverse geod (Py.last lats) (Py.last lons) end_lat end_lon in
      let target_heading := azi1 g in
      let change := heading_change target_heading heading in
      let heading' := heading + heading_step change in
      let new_position :=
        Direct geod (Py.last lats) (Py.last lons) heading' step_distance_ in
      let lats' := lats ++ [lat2 new_position] in
      let lons' := lons ++ [lon2 new_position] in
      let broke := close_enough heading' end_heading in
      let log' :=
        log ++ [mkStep target_heading heading change (heading_step change)
                       heading' step_distance_ broke] in
      if broke then (lats', lons', log')
      else segment_loop fuel' lats' lons' heading' log'
  end.

End Loop.

(** Line 17. *)
Definition n_points_of (total_distance : Q) : Z :=
  Py.max 1 (Py.int (total_distance / POINT_INTERVAL_METERS)).

(** Lines 12-39, with the ghost log. *)
Definition calculate_path_segment_log
           (start_lat start_lon start_heading end_lat end_lon end_heading : Q)
  : list Q * list Q * list Step :=
  let total_distance := s12 (Inverse geod start_lat start_lon end_lat end_lon) in
  let n_points := n_points_of total_distance in
  let step_distance := total_distance / inject_Z (2 * n_points) in
  segment_loop end_lat end_lon end_heading step_distance
               (Z.to_nat n_points) [start_lat] [start_lon] start_heading [].

(** [calculate_path_segment]: what the script returns, [(lats, lons)]. *)
Definition calculate_path_segment
           (start_lat start_lon start_heading end_lat end_lon end_heading : Q)
  : list Q * list Q :=
  fst (calculate_path_segment_log start_lat start_lon start_heading
                                  end_lat end_lon end_heading).

(** The ghost log of a call. *)
Definition segment_log
           (start_lat start_lon start_heading end_lat end_lon end_heading : Q)
  : list Step :=
  snd (calculate_path_segment_log start_lat start_lon start_heading
                                  end_lat end_lon end_heading).

(** ** The path reconciler (lines 41-69) *)

(** [(h + 180) % 360], the start heading of the backward segments
    (lines 51 and 63). *)
Definition reverse_heading (h : Q) : Q := Py.mod_ (h + 180) 360.

Section Reconciler.

Variables start_lat start_lon start_heading end_lat end_lon end_heading : Q.

(** Lines 46-47. *)
Definition phase_1 : list Q * list Q :=
  calculate_path_segment start_lat start_lon start_heading
                         end_lat end_lon end_heading.

(** Lines 50-51. *)
Definition phase_2 : list Q * list Q :=
  calculate_path_segment end_lat end_lon (reverse_heading end_heading)
                         (Py.last (fst phase_1)) (Py.last (snd phase_1))
                         end_heading.

(** Lines 53-54.  The comparison is against the module constants
    [LAT_B] and [LON_B], as in the source. *)
Definition end_of_phase_2_lat : Q :=
  if Qeq_bool LAT_B (Py.first (fst phase_2))
  then Py.last (fst phase_2) else Py.first (fst phase_2).

Definition end_of_phase_2_lon : Q :=
  if Qeq_bool LON_B (Py.first (snd phase_2))
  then Py.last (snd phase_2) else Py.first (snd phase_2).

(** Lines 58-59. *)
Definition phase_1_recalculated : list Q * list Q :=
  calculate_path_segment start_lat start_lon start_heading
                         end_of_phase_2_lat end_of_phase_2_lon end_heading.

(** Lines 62-63. *)
Definition phase_2_recalculated : list Q * list Q :=
  calculate_path_segment end_lat end_lon (reverse_heading end_heading)
                         (Py.last (fst phase_1_recalculated))
                         (Py.last (snd phase_1_recalculated))
                         end_heading.

(** Lines 66-69. *)
Definition generate_complete_path : list Q * list Q :=
  let full_lats := fst phase_1_recalculated ++ rev (fst phase_2_recalculated) in
  let full_lons := snd phase_1_recalculated ++ rev (snd phase_2_recalculated) in
  (full_lats, full_lons).

End Reconciler.

End Stepper.

(** ** One iteration of the loop, named

    The three values an iteration of [segment_loop] computes from the
    state on entry, for use in statements; [segment_loop_S] relates them
    to the loop. *)

Section Iteration.

Variable geod : Geodesic.
Variables end_lat end_lon end_heading step_distance_ : Q.

(** Lines 23-28: the heading after the update, which line 31 passes to
    [geod.Direct]. *)
Definition next_heading (lats lons : list Q) (heading : Q) : Q :=
  heading +
  heading_step
    (heading_change
       (azi1 (Inverse geod (Py.last lats) (Py.last lons) end_lat end_lon))
       heading).

(** Line 31: the point the iteration appends. *)
Definition next_position (lats lons : list Q) (heading : Q) : DirectResult :=
  Direct geod (Py.last lats) (Py.last lons)
         (next_heading lats lons heading) step_distance_.

(** The entry the iteration logs. *)
Definition next_step (lats lons : list Q) (heading : Q) : Step :=
  let t := azi1 (Inverse geod (Py.last lats) (Py.last lons) end_lat end_lon) in
  mkStep t heading (heading_change t heading)
         (heading_step (heading_change t heading))
         (next_heading lats lons heading) step_distance_
         (close_enough (next_heading lats lons heading) end_heading).

End Iteration.

(** ** Predicates on the ghost log *)

(** The log entries are chained: each entry starts from the heading the
    previous one passed to [geod.Direct], computes its change by line 27
    and its applied amount by line 28, and passes the sum on, as it is. *)
Fixpoint steps_chain (heading : Q) (log : list Step) : Prop :=
  match log with
  | [] => True
  | s :: log' =>
      step_before s = heading /\
      step_change s = heading_change (step_target s) heading /\
      step_applied s = heading_step (step_change s) /\
      step_direct s = heading + step_applied s /\
      steps_chain (step_direct s) log'
  end.

(** What every chained entry satisfies on its own. *)
Definition step_ok (s : Step) : Prop :=
  step_change s = heading_change (step_target s) (step_before s) /\
  step_applied s = heading_step (step_change s) /\
  step_direct s = step_before s + step_applied s.

(** The points appended after [(lat, lon)] are the results of
    [geod.Direct], called from the previous point with the heading and the
    distance of the matching log entry. *)
Fixpoint points_chain (geod : Geodesic) (lat lon : Q)
         (lats lons : list Q) (log : list Step) : Prop :=
  match lats, lons, log with
  | [], [], [] => True
  | p :: lats', q :: lons', s :: log' =>
      p = lat2 (Direct geod lat lon (step_direct s) (step_distance s)) /\
      q = lon2 (Direct geod lat lon (step_direct s) (step_distance s)) /\
      points_chain geod p q lats' lons' log'
  | _, _, _ => False
  end.

(** Line 18: the distance of every step of a segment whose oracle distance
    is [total_distance]. *)
Definition step_distance_of (total_distance : Q) : Q :=
  total_distance / inject_Z (2 * n_points_of total_distance).

(** The log of a run of the loop with [fuel] iterations left: it is empty
    exactly when no iteration is left; every entry carries the loop's
    step distance and the outcome of the test of line 36 on the heading
    it passed on; an entry that ended in [break] is the last one, any
    other is followed by the log of the remaining iterations. *)
Fixpoint stops_chain (end_heading dist : Q) (fuel : nat) (log : list Step)
         {struct log} : Prop :=
  match log with
  | [] => fuel = O
  | s :: log' =>
      step_distance s = dist /\
      step_broke s = close_enough (step_direct s) end_heading /\
      match fuel with
      | O => False
      | S fuel' =>
          if step_broke s then log' = []
          else stops_chain end_heading dist fuel' log'
      end
  end.

(** The target bearing of every log entry is the oracle's bearing from the
    point the step starts at, the one appended last (or the start point),
    to the fixed end point [(end_lat, end_lon)]. *)
Fixpoint targets_chain (geod : Geodesic) (end_lat end_lon lat lon : Q)
         (lats lons : list Q) (log : list Step) : Prop :=
  match lats, lons, log with
  | [], [], [] => True
  | p :: lats', q :: lons', s :: log' =>
      step_target s = azi1 (Inverse geod lat lon end_lat end_lon) /\
      targets_chain geod end_lat end_lon p q lats' lons' log'
  | _, _, _ => False
  end.


(** ** The presentation layer, as far as it computes (lines 71-108)

    [plot_curved_path] prints the path as a tuple of pairs, asks the
    oracle for the distance between the end points and draws; the drawing
    calls are effects on an external plotting library and are not
    modelled.  The script then runs it on eight heading pairs. *)

Section Presentation.

Variable geod : Geodesic.

(** Line 76: [tuple(zip(full_lats, full_lons))], the printed value. *)
Definition printed_points
           (start_lat start_lon start_heading end_lat end_lon end_heading : Q)
  : list (Q * Q) :=
  let full := generate_complete_path geod start_lat start_lon start_heading
                                     end_lat end_lon end_heading in
  combine (fst full) (snd full).

(** Line 77. *)
Definition great_circle_distance (start_lat start_lon end_lat end_lon : Q) : Q :=
  s12 (Inverse geod start_lat start_lon end_lat end_lon).

(** Lines 104-106. *)
Definition direction_data : list (Q * Q) :=
  [(295, 135); (195, 335); (315, 45); (135, 45);
   (90, 90); (0, 0); (0, 180); (270, 90)].

(** Lines 107-108: what the script prints, one tuple of pairs per heading
    pair, in order. *)
Definition script_output : list (list (Q * Q)) :=
  map (fun hs => printed_points LAT_A LON_A (fst hs) LAT_B LON_B (snd hs))
      direction_data.

End Presentation.

(** ** A deterministic stub oracle

    Points move on an east-west track: latitudes are carried along
    unchanged, a degree of longitude is [metres_per_degree] metres, the
    bearing to a target is due east ([90]) or due west ([-90], the oracle
    reports bearings in [[-180, 180]]), and a step advances the longitude
    by the eastward part of the heading, the sine being replaced by its
    piecewise-linear interpolation between the cardinal directions. *)

Module Track.

Definition metres_per_degree : Q := 111000.

Definition east_component (h : Q) : Q :=
  let x := Py.mod_ h 360 in
  if Qle_bool x 90 then x / 90
  else if Qle_bool x 270 then (180 - x) / 90
  else (x - 360) / 90.

Definition oracle : Geodesic :=
  {| Inverse := fun _ lon1 _ lon2 =>
       mkInverse (Qred (Qabs (lon2 - lon1) * metres_per_degree))
                 (if Qle_bool lon1 lon2 then 90 else -90);
     Direct := fun lat lon h s =>
       mkDirect lat (Qred (lon + s / metres_per_degree * east_component h)) |}.

End Track.

(** ** Arithmetic of the steering law *)

Section Arithmetic.

Lemma inject_Z_succ (z : Z) : inject_Z (z + 1) == inject_Z z + 1.
Proof. rewrite inject_Z_plus. reflexivity. Qed.


(** [x % 360] differs from [x] by a whole number of turns. *)
Lemma mod_360_congruent (x : Q) :
  Py.mod_ x 360 == x + 360 * inject_Z (- Qfloor (x / 360)).
Proof.
  unfold Py.mod_. rewrite inject_Z_opp. ring.
Qed.

Lemma ltb_true_iff (x y : Q) : Py.ltb x y = true <-> x < y.
Proof.
  unfold Py.ltb. rewrite negb_true_iff.
  split; intro H.
  - apply Qnot_le_lt. intro Hle. apply Qle_bool_iff in Hle. congruence.
  - destruct (Qle_bool y x) eqn:E; trivial.
    apply Qle_bool_iff in E. lra.
Qed.

Lemma ltb_false_iff (x y : Q) : Py.ltb x y = false <-> y <= x.
Proof.
  unfold Py.ltb. rewrite negb_false_iff. apply Qle_bool_iff.
Qed.

Lemma min_range (a b : Q) : 0 <= a -> 0 <= b -> 0 <= Py.min a b /\ Py.min a b <= a.
Proof.
  intros Ha Hb. unfold Py.min.
  destruct (Py.ltb b a) eqn:E.
  - apply ltb_true_iff in E. split; lra.
  - split; lra.
Qed.



(** Line 28 never adds more than [MAX_TURN_RATE] in absolute value. *)
Lemma heading_step_bound (c : Q) : Qabs (heading_step c) <= MAX_TURN_RATE.
Proof.
  unfold heading_step, MAX_TURN_RATE.
  destruct (min_range 3 (Qabs c)) as [Hlo Hhi];
    [lra | apply Qabs_nonneg |].
  set (m := Py.min 3 (Qabs c)) in *.
  apply Qabs_Qle_condition.
  unfold Py.sign. destruct (Qnum c); split; lra.
Qed.

(** Line 17: truncation and floor give the same step count, whatever the
    sign of the distance. *)
Lemma n_points_of_floor (d : Q) :
  n_points_of d = Z.max 1 (Qfloor (d / POINT_INTERVAL_METERS)).
Proof.
  unfold n_points_of, Py.max, Py.int, Qfloor.
  destruct (d / POINT_INTERVAL_METERS) as [n p]. cbn [Qnum Qden].
  destruct (Z.ltb_spec 1 (Z.quot n (Z.pos p))) as [H | H].
  - assert (0 <= n)%Z.
    { destruct (Z.lt_ge_cases n 0) as [Hn | Hn]; trivial.
      pose proof (Z.quot_opp_l n (Z.pos p) ltac:(lia)) as Ho.
      pose proof (Z.quot_pos (- n) (Z.pos p) ltac:(lia) ltac:(lia)). lia. }
    rewrite <- Z.quot_div_nonneg by lia. lia.
  - destruct (Z.lt_ge_cases n 0) as [Hn | Hn].
    + assert (n / Z.pos p < 0)%Z by (apply Z.div_lt_upper_bound; lia). lia.
    + rewrite <- Z.quot_div_nonneg by lia. lia.
Qed.

Lemma n_points_of_pos (d : Q) : (1 <= n_points_of d)%Z.
Proof. rewrite n_points_of_floor. lia. Qed.

End Arithmetic.

(** ** Shape of a segment *)

Section LoopFacts.

Variable geod : Geodesic.
Variables end_lat end_lon end_heading step_distance_ : Q.

Let loop := segment_loop geod end_lat end_lon end_heading step_distance_.
Let heading' := next_heading geod end_lat end_lon.
Let position' := next_position geod end_lat end_lon step_distance_.
Let step' := next_step geod end_lat end_lon end_heading step_distance_.

(** One unfolding of the loop. *)
Lemma segment_loop_S fuel lats lons heading log :
  loop (S fuel) lats lons heading log =
  if close_enough (heading' lats lons heading) end_heading
  then (lats ++ [lat2 (position' lats lons heading)],
        lons ++ [lon2 (position' lats lons heading)],
        log ++ [step' lats lons heading])
  else loop fuel
            (lats ++ [lat2 (position' lats lons heading)])
            (lons ++ [lon2 (position' lats lons heading)])
            (heading' lats lons heading)
            (log ++ [step' lats lons heading]).
Proof. reflexivity. Qed.

Lemma next_step_chain lats lons heading log' :
  steps_chain (heading' lats lons heading) log' ->
  steps_chain heading (step' lats lons heading :: log').
Proof.
  intro H. cbn. repeat split; trivial.
Qed.

(** The loop only appends: as many latitudes and longitudes as log
    entries, at most [fuel] of them, at least one when [fuel] is not
    zero, and the entries are chained from the heading on entry. *)
Lemma segment_loop_shape fuel :
  forall lats lons heading log,
  exists la lo lg,
    loop fuel lats lons heading log = (lats ++ la, lons ++ lo, log ++ lg) /\
    length la = length lg /\ length lo = length lg /\
    (length lg <= fuel)%nat /\ (fuel <> O -> (1 <= length lg)%nat) /\
    steps_chain heading lg /\
    points_chain geod (Py.last lats) (Py.last lons) la lo lg.
Proof.
  induction fuel as [| fuel IH]; intros lats lons heading log.
  - exists [], [], []. rewrite !app_nil_r. cbn. repeat split; auto; lia.
  - rewrite segment_loop_S.
    destruct (close_enough (heading' lats lons heading) end_heading).
    + eexists [_], [_], [_]. repeat split; cbn; auto; lia.
    + destruct (IH (lats ++ [lat2 (position' lats lons heading)])
                   (lons ++ [lon2 (position' lats lons heading)])
                   (heading' lats lons heading)
                   (log ++ [step' lats lons heading]))
        as (la & lo & lg & Heq & Hla & Hlo & Hle & _ & Hch & Hpt).
      exists (lat2 (position' lats lons heading) :: la),
             (lon2 (position' lats lons heading) :: lo),
             (step' lats lons heading :: lg).
      rewrite Heq, <- !app_assoc. cbn [app length].
      repeat split; try lia.
      * apply next_step_chain, Hch.
      * unfold Py.last in Hpt. rewrite !last_last in Hpt. exact Hpt.
Qed.

(** The lists the loop reads with [[-1]] are never empty. *)
Lemma segment_loop_nonempty fuel lats lons heading log :
  lats <> [] -> lons <> [] ->
  fst (fst (loop fuel lats lons heading log)) <> [] /\
  snd (fst (loop fuel lats lons heading log)) <> [].
Proof.
  intros Hla Hlo.
  destruct (segment_loop_shape fuel lats lons heading log)
    as (la & lo & lg & Heq & _).
  rewrite Heq. cbn. split; intro H; apply app_eq_nil in H; tauto.
Qed.

End LoopFacts.

(** ** Facts about the ghost log *)

Section LogFacts.

Lemma steps_chain_Forall (log : list Step) :
  forall heading, steps_chain heading log -> Forall step_ok log.
Proof.
  induction log as [| s log IH]; intros heading H; constructor.
  - destruct H as (Hb & Hc & Ha & Hd & _).
    unfold step_ok. rewrite Hb. auto.
  - destruct H as (_ & _ & _ & _ & H). exact (IH _ H).
Qed.

(** After [i + 1] iterations the heading passed on has drifted from the
    heading on entry by at most [i + 1] times [MAX_TURN_RATE]. *)
Lemma steps_chain_drift (log : list Step) :
  forall heading i s,
    steps_chain heading log -> nth_error log i = Some s ->
    Qabs (step_direct s - heading)
    <= MAX_TURN_RATE * inject_Z (Z.of_nat (S i)).
Proof.
  induction log as [| s0 log IH]; intros heading i s H Hn.
  - destruct i; discriminate.
  - destruct H as (_ & _ & Ha & Hd & H).
    pose proof (heading_step_bound (step_change s0)) as Hb.
    rewrite <- Ha in Hb. unfold MAX_TURN_RATE in *.
    destruct i as [| i]; cbn in Hn.
    + injection Hn as <-. rewrite Hd.
      apply Qabs_Qle_condition in Hb. apply Qabs_Qle_condition.
      change (inject_Z (Z.of_nat 1)) with 1. lra.
    + specialize (IH _ _ _ H Hn).
      rewrite Nat2Z.inj_succ, <- Z.add_1_r, inject_Z_succ.
      rewrite Hd in IH.
      apply Qabs_Qle_condition in Hb. apply Qabs_Qle_condition in IH.
      apply Qabs_Qle_condition.
      set (m := inject_Z (Z.of_nat (S i))) in *. lra.
Qed.

End LogFacts.

(** ** Facts about [calculate_path_segment] *)

Section SegmentFacts.

Variable geod : Geodesic.
Variables start_lat start_lon start_heading end_lat end_lon end_heading : Q.

Let total_distance : Q :=
  s12 (Inverse geod start_lat start_lon end_lat end_lon).

(** A segment is the start point followed by one point per executed
    iteration; between one and [n_points] iterations are executed. *)
Lemma calculate_path_segment_shape :
  exists la lo lg,
    calculate_path_segment_log geod start_lat start_lon start_heading
                               end_lat end_lon end_heading
    = (start_lat :: la, start_lon :: lo, lg) /\
    length la = length lg /\ length lo = length lg /\
    (1 <= length lg)%nat /\
    (Z.of_nat (length lg) <= n_points_of total_distance)%Z /\
    steps_chain start_heading lg /\
    points_chain geod start_lat start_lon la lo lg.
Proof.
  unfold calculate_path_segment_log. fold total_distance.
  pose proof (n_points_of_pos total_distance) as Hn.
  destruct (segment_loop_shape geod end_lat end_lon end_heading
              (total_distance / inject_Z (2 * n_points_of total_distance))
              (Z.to_nat (n_points_of total_distance))
              [start_lat] [start_lon] start_heading [])
    as (la & lo & lg & Heq & Hla & Hlo & Hle & Hge & Hch & Hpt).
  exists la, lo, lg. rewrite Heq. cbn [app].
  repeat split; trivial; lia.
Qed.

End SegmentFacts.

(** ** The segment stepper: claims *)

Section SegmentClaims.

Variable geod : Geodesic.
Variables start_lat start_lon start_heading end_lat end_lon end_heading : Q.

Let segment : list Q * list Q :=
  calculate_path_segment geod start_lat start_lon start_heading
                         end_lat end_lon end_heading.

Let log : list Step :=
  segment_log geod start_lat start_lon start_heading
              end_lat end_lon end_heading.

Let total_distance : Q :=
  s12 (Inverse geod start_lat start_lon end_lat end_lon).

(** C4: in every segment produced by [calculate_path_segment], at each
    step the amount added to the running heading (so that the heading
    passed on is the heading on entry plus that amount) has absolute
    value at most [MAX_TURN_RATE] degrees. *)
Theorem turn_rate_bound :
  Forall (fun s => step_direct s = step_before s + step_applied s /\
                   Qabs (step_applied s) <= MAX_TURN_RATE) log.
Proof.
  unfold log, segment_log.
  destruct (calculate_path_segment_shape geod start_lat start_lon
              start_heading end_lat end_lon end_heading)
    as (la & lo & lg & Heq & _ & _ & _ & _ & Hch & _).
  rewrite Heq. cbn [snd].
  apply steps_chain_Forall in Hch.
  eapply Forall_impl; [| exact Hch].
  intros s (_ & Ha & Hd). split; trivial.
  rewrite Ha. apply heading_step_bound.
Qed.

(** C7: every call to [calculate_path_segment] returns (the loop runs at
    most [n] times, so the function is total), and the returned segment
    has at most [n + 1] latitudes and longitudes, where
    [n = max(1, floor(total_distance / POINT_INTERVAL_METERS))] is
    computed from the oracle distance between start and end. *)
Theorem segment_terminates_within_bound :
  exists lats lons,
    segment = (lats, lons) /\
    let n := Z.max 1 (Qfloor (total_distance / POINT_INTERVAL_METERS)) in
    (Z.of_nat (length lats) <= n + 1)%Z /\
    (Z.of_nat (length lons) <= n + 1)%Z.
Proof.
  unfold segment, calculate_path_segment.
  destruct (calculate_path_segment_shape geod start_lat start_lon
              start_heading end_lat end_lon end_heading)
    as (la & lo & lg & Heq & Hla & Hlo & _ & Hle & _).
  rewrite Heq. cbn [fst].
  exists (start_lat :: la), (start_lon :: lo).
  split; [reflexivity |].
  rewrite n_points_of_floor in Hle. fold total_distance in Hle.
  cbn [length]. rewrite Hla, Hlo. cbv zeta. lia.
Qed.

(** C9: every segment returned by [calculate_path_segment] contains at
    least two points: the start point, then at least one stepped point,
    since [n_points >= 1] and the loop body appends before it tests for
    early termination.  The second point is the one the first iteration
    appends: the result of [geod.Direct] from the start point, with the
    start heading updated by lines 27-28 towards the oracle's bearing to
    the end point, over the step distance of line 18; every later point
    is the result of [geod.Direct] from the point before it. *)
Theorem segment_has_two_points :
  let heading :=
    start_heading +
    heading_step
      (heading_change
         (azi1 (Inverse geod start_lat start_lon end_lat end_lon))
         start_heading) in
  let new_position :=
    Direct geod start_lat start_lon heading
           (step_distance_of total_distance) in
  exists lats lons,
    segment = (start_lat :: lat2 new_position :: lats,
               start_lon :: lon2 new_position :: lons) /\
    length lats = length lons /\
    points_chain geod start_lat start_lon
                 (lat2 new_position :: lats) (lon2 new_position :: lons) log.
Proof.
  cbv zeta.
  destruct (calculate_path_segment_shape geod start_lat start_lon
              start_heading end_lat end_lon end_heading)
    as (la & lo & lg & Heq & Hla & Hlo & _ & _ & _ & Hpt).
  unfold segment, log, calculate_path_segment, segment_log.
  rewrite Heq. cbn [fst snd].
  unfold calculate_path_segment_log in Heq. fold total_distance in Heq.
  fold (step_distance_of total_distance) in Heq.
  pose proof (n_points_of_pos total_distance) as Hn.
  destruct (Z.to_nat (n_points_of total_distance)) as [| fuel] eqn:En; [lia |].
  rewrite segment_loop_S in Heq.
  destruct (close_enough _ _).
  - injection Heq as <- <- <-.
    exists [], []. repeat split.
  - match type of Heq with
    | segment_loop _ _ _ _ ?sd _ ?l1 ?l2 ?h ?g = _ =>
        destruct (segment_loop_shape geod end_lat end_lon end_heading sd
                    fuel l1 l2 h g)
          as (la' & lo' & lg' & Heq' & Hla' & Hlo' & _)
    end.
    rewrite Heq' in Heq. cbn [app] in Heq. injection Heq as <- <- <-.
    exists la', lo'. split; [reflexivity |].
    split; [congruence | exact Hpt].
Qed.

End SegmentClaims.

(** ** The steering law: claims *)

Section SteeringClaims.

Variable geod : Geodesic.
Variables start_lat start_lon start_heading end_lat end_lon end_heading : Q.

Let segment : list Q * list Q :=
  calculate_path_segment geod start_lat start_lon start_heading
                         end_lat end_lon end_heading.

Let log : list Step :=
  segment_log geod start_lat start_lon start_heading
              end_lat end_lon end_heading.


(** C8, as amended: the heading passed to [geod.Direct] at a step is the
    running heading after the clamped update, passed as it is, without
    normalisation into [[0, 360)]: the first step starts from
    [start_heading], each step passes on its entry heading plus the
    amount line 28 applies and hands that sum to the next step, and each
    appended point is [geod.Direct]'s result for that heading. *)
Theorem direct_heading_is_running_heading :
  exists lats lons,
    segment = (start_lat :: lats, start_lon :: lons) /\
    points_chain geod start_lat start_lon lats lons log /\
    steps_chain start_heading log.
Proof.
  unfold segment, log, calculate_path_segment, segment_log.
  destruct (calculate_path_segment_shape geod start_lat start_lon
              start_heading end_lat end_lon end_heading)
    as (la & lo & lg & Heq & _ & _ & _ & _ & Hch & Hpt).
  rewrite Heq. cbn [fst snd].
  exists la, lo. repeat split; trivial.
Qed.

End SteeringClaims.

Section EarlyTermination.

Variable geod : Geodesic.
Variables end_lat end_lon end_heading step_distance_ : Q.

Let loop := segment_loop geod end_lat end_lon end_heading step_distance_.
Let heading' := next_heading geod end_lat end_lon.
Let position' := next_position geod end_lat end_lon step_distance_.
Let step' := next_step geod end_lat end_lon end_heading step_distance_.

(** C10: the early-termination test compares raw numbers, not angles
    modulo 360: at every step at which the updated running heading
    differs from [end_heading] by a nonzero multiple of 360, the test
    [abs(heading - end_heading) < 0.1] is false and the loop does not
    stop at that step, it goes on with the remaining iterations. *)
Theorem no_early_stop_on_full_turns
        (fuel : nat) (lats lons : list Q) (heading : Q) (log : list Step)
        (k : Z) :
  k <> 0%Z ->
  heading' lats lons heading - end_heading == 360 * inject_Z k ->
  close_enough (heading' lats lons heading) end_heading = false /\
  step_broke (step' lats lons heading) = false /\
  loop (S fuel) lats lons heading log =
  loop fuel
       (lats ++ [lat2 (position' lats lons heading)])
       (lons ++ [lon2 (position' lats lons heading)])
       (heading' lats lons heading)
       (log ++ [step' lats lons heading]).
Proof.
  intros Hk Hd.
  assert (E : close_enough (heading' lats lons heading) end_heading = false).
  { unfold close_enough. apply ltb_false_iff.
    rewrite Hd, Qabs_Qmult.
    assert (Hone : 1 <= Qabs (inject_Z k)).
    { unfold inject_Z, Qabs, Qle. cbn. lia. }
    change (Qabs 360) with 360. lra. }
  split; [exact E |]. split; [exact E |].
  unfold loop. rewrite segment_loop_S.
  fold heading'. rewrite E. reflexivity.
Qed.

End EarlyTermination.

(** ** Concrete runs of the stepper on the stub oracle *)

(** C10, an instance: entering the loop with heading 450 towards a target
    due east with [end_heading = 90], one full turn apart. *)
Lemma no_early_stop_on_full_turns_witness :
  (1 <> 0)%Z /\
  next_heading Track.oracle 0 (1 # 100) [0] [0] 450 - 90 == 360 * inject_Z 1 /\
  close_enough (next_heading Track.oracle 0 (1 # 100) [0] [0] 450) 90 = false.
Proof.
  assert (H1 : (1 <> 0)%Z) by discriminate.
  assert (H2 : next_heading Track.oracle 0 (1 # 100) [0] [0] 450 - 90
               == 360 * inject_Z 1) by (vm_compute; reflexivity).
  split; [exact H1 |]. split; [exact H2 |].
  exact (proj1 (no_early_stop_on_full_turns Track.oracle 0 (1 # 100) 90 (1 # 2)
                  1 [0] [0] 450 [] 1 H1 H2)).
Defined.


(** C8, counterexample: the script's own example [(0, 0)], from A with
    heading 0 towards B, which lies to the west (negative bearing): the
    first call of [geod.Direct] receives the heading -3, which is not in
    [[0, 360)]. *)
Lemma direct_heading_not_normalised :
  exists s,
    hd_error (segment_log Track.oracle LAT_A LON_A 0 LAT_B LON_B 0) = Some s /\
    step_direct s == -3 /\
    ~ (0 <= step_direct s /\ step_direct s < 360).
Proof.
  eexists. split; [vm_compute; reflexivity |].
  cbn [step_direct]. split; [reflexivity |].
  intros [H _]. vm_compute in H. apply H. reflexivity.
Qed.


(** ** The path reconciler: claims *)

Section ReconcilerFacts.

Variable geod : Geodesic.

(** A segment starts with its start point and has at least one more
    point; latitudes and longitudes come in equal numbers. *)
Lemma segment_cons (a b h c d e : Q) :
  exists p la q lo,
    calculate_path_segment geod a b h c d e = (a :: p :: la, b :: q :: lo) /\
    length la = length lo.
Proof.
  unfold calculate_path_segment.
  destruct (calculate_path_segment_shape geod a b h c d e)
    as (la & lo & lg & Heq & Hla & Hlo & Hge & _).
  rewrite Heq. cbn [fst].
  destruct la as [| p la]; [cbn in Hla; lia |].
  destruct lo as [| q lo]; [cbn in Hlo; lia |].
  exists p, la, q, lo. split; [reflexivity |].
  cbn in Hla, Hlo. lia.
Qed.

Lemma rev_cons2 (x y : Q) (l : list Q) :
  rev (x :: y :: l) = rev l ++ [y; x].
Proof. cbn. rewrite <- app_assoc. reflexivity. Qed.

(** When the end point is the configured B, the junction of lines 53-54
    is the last point of the first backward segment. *)
Lemma junction_for_configured_B (a b h c d e : Q) :
  c == LAT_B -> d == LON_B ->
  end_of_phase_2_lat geod a b h c d e = Py.last (fst (phase_2 geod a b h c d e)) /\
  end_of_phase_2_lon geod a b h c d e = Py.last (snd (phase_2 geod a b h c d e)).
Proof.
  intros Hc Hd. unfold end_of_phase_2_lat, end_of_phase_2_lon, phase_2.
  destruct (segment_cons c d (reverse_heading e)
              (Py.last (fst (phase_1 geod a b h c d e)))
              (Py.last (snd (phase_1 geod a b h c d e))) e)
    as (p & la & q & lo & Heq & _).
  rewrite Heq. cbn [fst snd Py.first hd].
  rewrite (Qeq_eq_bool LAT_B c), (Qeq_eq_bool LON_B d) by (symmetry; assumption).
  split; reflexivity.
Qed.

(** When neither coordinate of the end point equals the configured B's,
    the junction of lines 53-54 is the end point itself. *)
Lemma junction_for_other_B (a b h c d e : Q) :
  ~ c == LAT_B -> ~ d == LON_B ->
  end_of_phase_2_lat geod a b h c d e = c /\
  end_of_phase_2_lon geod a b h c d e = d.
Proof.
  intros Hc Hd. unfold end_of_phase_2_lat, end_of_phase_2_lon, phase_2.
  destruct (segment_cons c d (reverse_heading e)
              (Py.last (fst (phase_1 geod a b h c d e)))
              (Py.last (snd (phase_1 geod a b h c d e))) e)
    as (p & la & q & lo & Heq & _).
  rewrite Heq. cbn [fst snd Py.first hd].
  destruct (Qeq_bool LAT_B c) eqn:E1;
    [apply Qeq_bool_eq in E1; symmetry in E1; contradiction |].
  destruct (Qeq_bool LON_B d) eqn:E2;
    [apply Qeq_bool_eq in E2; symmetry in E2; contradiction |].
  split; reflexivity.
Qed.

End ReconcilerFacts.

Section ReconcilerClaims.

Variable geod : Geodesic.
Variables start_lat start_lon start_heading end_lat end_lon end_heading : Q.

Let path : list Q * list Q :=
  generate_complete_path geod start_lat start_lon start_heading
                         end_lat end_lon end_heading.

Let p1' : list Q * list Q :=
  phase_1_recalculated geod start_lat start_lon start_heading
                       end_lat end_lon end_heading.

Let p2' : list Q * list Q :=
  phase_2_recalculated geod start_lat start_lon start_heading
                       end_lat end_lon end_heading.

(** C1: for every input, with A distinct from B or not, the path
    returned by [generate_complete_path] starts exactly at A and ends
    exactly at B: its first latitude and longitude are A's, its last
    latitude and longitude are B's, and there are as many latitudes as
    longitudes. *)
Theorem endpoint_fidelity :
  exists mid_lats mid_lons,
    path = (start_lat :: mid_lats ++ [end_lat],
            start_lon :: mid_lons ++ [end_lon]) /\
    length mid_lats = length mid_lons.
Proof.
  unfold path, generate_complete_path, phase_2_recalculated,
    phase_1_recalculated.
  set (jlat := end_of_phase_2_lat _ _ _ _ _ _ _).
  set (jlon := end_of_phase_2_lon _ _ _ _ _ _ _).
  destruct (segment_cons geod start_lat start_lon start_heading
              jlat jlon end_heading)
    as (p & la & q & lo & Heq1 & Hl1).
  rewrite Heq1.
  destruct (segment_cons geod end_lat end_lon (reverse_heading end_heading)
              (Py.last (fst (start_lat :: p :: la, start_lon :: q :: lo)))
              (Py.last (snd (start_lat :: p :: la, start_lon :: q :: lo)))
              end_heading)
    as (p2 & la2 & q2 & lo2 & Heq2 & Hl2).
  rewrite Heq2. cbn [fst snd].
  exists (p :: la ++ rev la2 ++ [p2]), (q :: lo ++ rev lo2 ++ [q2]).
  split.
  - rewrite !rev_cons2. cbn [app]. rewrite <- !app_assoc. reflexivity.
  - cbn [length]. rewrite !length_app, !length_rev. cbn [length]. lia.
Qed.

(** C5, as amended: the stitched path is the corrected forward segment
    followed by the corrected backward segment reversed, the backward
    segment being grown from B towards the last point of the forward
    one; in the output the last point of the forward segment is
    immediately followed by the last point of the backward segment.
    (Nothing makes these two points equal; see
    [junction_points_differ].) *)
Theorem stitched_at_segment_tips :
  p2' = calculate_path_segment geod end_lat end_lon
                               (reverse_heading end_heading)
                               (Py.last (fst p1')) (Py.last (snd p1'))
                               end_heading /\
  path = (fst p1' ++ rev (fst p2'), snd p1' ++ rev (snd p2')) /\
  nth_error (fst path) (length (fst p1') - 1) = Some (Py.last (fst p1')) /\
  nth_error (snd path) (length (snd p1') - 1) = Some (Py.last (snd p1')) /\
  nth_error (fst path) (length (fst p1')) = Some (Py.last (fst p2')) /\
  nth_error (snd path) (length (snd p1')) = Some (Py.last (snd p2')).
Proof.
  split; [reflexivity |]. split; [reflexivity |].
  unfold path, generate_complete_path. fold p1' p2'. cbn [fst snd].
  assert (Hlast : forall l : list Q, l <> [] ->
            nth_error l (length l - 1) = Some (Py.last l)).
  { intros l Hl. destruct (exists_last Hl) as (l0 & x & ->).
    unfold Py.last. rewrite last_last, length_app. cbn [length].
    replace (length l0 + 1 - 1)%nat with (length l0) by lia.
    rewrite nth_error_app2, Nat.sub_diag by lia. reflexivity. }
  assert (Hhead : forall l m : list Q, m <> [] ->
            nth_error (l ++ rev m) (length l) = Some (Py.last m)).
  { intros l m Hm. destruct (exists_last Hm) as (m0 & x & ->).
    unfold Py.last. rewrite last_last, rev_app_distr. cbn [rev app].
    rewrite nth_error_app2, Nat.sub_diag by lia. reflexivity. }
  assert (Hfront : forall (l m : list Q) i, (i < length l)%nat ->
            nth_error (l ++ m) i = nth_error l i).
  { intros l m i Hi. apply nth_error_app1, Hi. }
  unfold p1', p2', phase_2_recalculated, phase_1_recalculated.
  set (jlat := end_of_phase_2_lat _ _ _ _ _ _ _).
  set (jlon := end_of_phase_2_lon _ _ _ _ _ _ _).
  destruct (segment_cons geod start_lat start_lon start_heading
              jlat jlon end_heading)
    as (p & la & q & lo & Heq1 & Hl1).
  rewrite Heq1.
  destruct (segment_cons geod end_lat end_lon (reverse_heading end_heading)
              (Py.last (fst (start_lat :: p :: la, start_lon :: q :: lo)))
              (Py.last (snd (start_lat :: p :: la, start_lon :: q :: lo)))
              end_heading)
    as (p2 & la2 & q2 & lo2 & Heq2 & Hl2).
  rewrite Heq2. cbn [fst snd].
  repeat split.
  - rewrite Hfront by (cbn [length]; lia). apply Hlast. discriminate.
  - rewrite Hfront by (cbn [length]; lia). apply Hlast. discriminate.
  - apply Hhead. discriminate.
  - apply Hhead. discriminate.
Qed.

End ReconcilerClaims.

Section Degenerate.

Variable geod : Geodesic.
Variables lat lon heading_a heading_b : Q.

(** C3, as amended: when the two endpoints coincide,
    [generate_complete_path] returns (it neither raises nor loops: the
    function is total) a path of at least four points, not a single
    point: each of the two stitched segments contributes its start point
    and at least one stepped point; the first and the last point are
    the common endpoint. *)
Theorem coincident_endpoints_give_four_points :
  exists lat1 lats lat2 lon1 lons lon2,
    generate_complete_path geod lat lon heading_a lat lon heading_b
    = (lat :: lat1 :: lats ++ [lat2; lat],
       lon :: lon1 :: lons ++ [lon2; lon]) /\
    length lats = length lons.
Proof.
  unfold generate_complete_path, phase_2_recalculated, phase_1_recalculated.
  set (jlat := end_of_phase_2_lat _ _ _ _ _ _ _).
  set (jlon := end_of_phase_2_lon _ _ _ _ _ _ _).
  destruct (segment_cons geod lat lon heading_a jlat jlon heading_b)
    as (p & la & q & lo & Heq1 & Hl1).
  rewrite Heq1.
  destruct (segment_cons geod lat lon (reverse_heading heading_b)
              (Py.last (fst (lat :: p :: la, lon :: q :: lo)))
              (Py.last (snd (lat :: p :: la, lon :: q :: lo)))
              heading_b)
    as (p2 & la2 & q2 & lo2 & Heq2 & Hl2).
  rewrite Heq2. cbn [fst snd].
  exists p, (la ++ rev la2), p2, q, (lo ++ rev lo2), q2.
  split.
  - rewrite !rev_cons2. cbn [app]. rewrite <- !app_assoc. reflexivity.
  - rewrite !length_app, !length_rev. lia.
Qed.

End Degenerate.

(** ** Concrete runs of the reconciler *)

(** C2, at the failing input [generate_complete_path(0, 0, 90, 0, 0.01, 90)]:
    the end point is not the configured B, so lines 53-54, which compare
    with the module constants [LAT_B] and [LON_B], select the first point
    of the backward segment, B itself, whatever the oracle; on the stub
    oracle the far endpoint of that segment is a different point,
    [(0, 7/1200)]. *)
Theorem junction_is_B_for_other_endpoint :
  (forall geod : Geodesic,
     end_of_phase_2_lat geod 0 0 90 0 (1 # 100) 90 = 0 /\
     end_of_phase_2_lon geod 0 0 90 0 (1 # 100) 90 = 1 # 100) /\
  phase_2 Track.oracle 0 0 90 0 (1 # 100) 90
  = ([0; 0; 0; 0], [1 # 100; 31 # 3600; 13 # 1800; 7 # 1200]) /\
  ~ Py.last (snd (phase_2 Track.oracle 0 0 90 0 (1 # 100) 90))
    == end_of_phase_2_lon Track.oracle 0 0 90 0 (1 # 100) 90.
Proof.
  split; [| split].
  - intro geod. apply junction_for_other_B; vm_compute; discriminate.
  - vm_compute. reflexivity.
  - vm_compute. discriminate.
Qed.

(** C3, counterexample: with both endpoints at the configured B the
    returned path has four points, all of them B, not one. *)
Lemma coincident_endpoints_not_single_point :
  generate_complete_path Track.oracle LAT_B LON_B 90 LAT_B LON_B 90
  = ([LAT_B; LAT_B; LAT_B; LAT_B], [LON_B; LON_B; LON_B; LON_B]) /\
  length (fst (generate_complete_path Track.oracle LAT_B LON_B 90
                                      LAT_B LON_B 90)) <> 1%nat.
Proof.
  split.
  - vm_compute. reflexivity.
  - vm_compute. discriminate.
Qed.

(** C5, counterexample: from [(50.02, 4.92)] heading east to the
    configured B with final heading east, the corrected forward segment
    ends at longitude 23623/4800 and the reversed corrected backward
    segment starts at longitude 47287/9600, a different point: the
    stitched path jumps from one to the other. *)
Lemma junction_points_differ :
  phase_1_recalculated Track.oracle LAT_B (492 # 100) 90 LAT_B LON_B 90
  = ([LAT_B; LAT_B], [492 # 100; 23623 # 4800]) /\
  phase_2_recalculated Track.oracle LAT_B (492 # 100) 90 LAT_B LON_B 90
  = ([LAT_B; LAT_B; LAT_B; LAT_B],
     [LON_B; 141943 # 28800; 70951 # 14400; 47287 # 9600]) /\
  ~ Py.last (snd (phase_1_recalculated Track.oracle LAT_B (492 # 100) 90
                                       LAT_B LON_B 90))
    == Py.first (rev (snd (phase_2_recalculated Track.oracle LAT_B (492 # 100)
                                                90 LAT_B LON_B 90))).
Proof.
  split; [| split].
  - vm_compute. reflexivity.
  - vm_compute. reflexivity.
  - vm_compute. discriminate.
Qed.

(** * Further properties of the code *)

(** ** The clamp of line 28 *)

Section SteeringArithmetic.

Lemma sign_cases (c : Q) :
  (c == 0 /\ Py.sign c = 0) \/ (0 < c /\ Py.sign c = 1) \/
  (c < 0 /\ Py.sign c = -1).
Proof.
  destruct c as [n d]. unfold Py.sign. cbn [Qnum].
  destruct n.
  - left. split; reflexivity.
  - right. left. split; reflexivity.
  - right. right. split; reflexivity.
Qed.

Lemma min_spec (a b : Q) :
  (b < a /\ Py.min a b = b) \/ (a <= b /\ Py.min a b = a).
Proof.
  unfold Py.min. destruct (Py.ltb b a) eqn:E.
  - left. split; [apply ltb_true_iff, E | reflexivity].
  - right. split; [apply ltb_false_iff, E | reflexivity].
Qed.

(** Line 28 adds [change] itself when that is at most [MAX_TURN_RATE] in
    absolute value, and [MAX_TURN_RATE] with the sign of [change]
    otherwise. *)
Lemma heading_step_cases (c : Q) :
  (c < -3 /\ heading_step c == -3) \/
  (-3 <= c /\ c <= 3 /\ heading_step c == c) \/
  (3 < c /\ heading_step c == 3).
Proof.
  unfold heading_step, MAX_TURN_RATE.
  destruct (sign_cases c) as [[Hc ->] | [[Hc ->] | [Hc ->]]].
  - right. left. repeat split; lra.
  - pose proof (Qabs_pos c ltac:(lra)) as Ha.
    destruct (min_spec 3 (Qabs c)) as [[Hm ->] | [Hm ->]].
    + right. left. repeat split; lra.
    + destruct (Qlt_le_dec 3 c).
      * right. right. split; lra.
      * right. left. repeat split; lra.
  - pose proof (Qabs_neg c ltac:(lra)) as Ha.
    destruct (min_spec 3 (Qabs c)) as [[Hm ->] | [Hm ->]].
    + right. left. repeat split; lra.
    + destruct (Qlt_le_dec c (-3)).
      * left. split; lra.
      * right. left. repeat split; lra.
Qed.

(** X3: line 28 is a clamp: the amount added to the heading is the
    computed difference limited to [[-MAX_TURN_RATE, MAX_TURN_RATE]]. *)
Theorem heading_step_is_clamp (c : Q) :
  heading_step c == Qmax (- MAX_TURN_RATE) (Qmin MAX_TURN_RATE c).
Proof.
  unfold MAX_TURN_RATE.
  destruct (heading_step_cases c) as [[Hc ->] | [(Hlo & Hhi & ->) | [Hc ->]]].
  - rewrite (Q.min_r 3 c) by lra. rewrite Q.max_l by lra. reflexivity.
  - rewrite (Q.min_r 3 c) by lra. rewrite Q.max_r by lra. reflexivity.
  - rewrite (Q.min_l 3 c) by lra. rewrite Q.max_r by lra. reflexivity.
Qed.

End SteeringArithmetic.


(** ** How the loop stops (lines 17-18, 22, 36-37) *)

Section StopFacts.

Variable geod : Geodesic.
Variables end_lat end_lon end_heading step_distance_ : Q.

Let loop := segment_loop geod end_lat end_lon end_heading step_distance_.

(** The log the loop appends records how it stopped. *)
Lemma segment_loop_stops fuel :
  forall lats lons heading log,
  exists lg,
    snd (loop fuel lats lons heading log) = log ++ lg /\
    stops_chain end_heading step_distance_ fuel lg.
Proof.
  induction fuel as [| fuel IH]; intros lats lons heading log.
  - exists []. rewrite app_nil_r. split; reflexivity.
  - unfold loop. rewrite segment_loop_S.
    destruct (close_enough (next_heading geod end_lat end_lon lats lons heading)
                           end_heading) eqn:E.
    + eexists [_]. split; [reflexivity |].
      cbn. rewrite E. repeat split.
    + match goal with
      | |- context [segment_loop _ _ _ _ _ _ ?la ?lo ?h ?lg] =>
          destruct (IH la lo h lg) as (lg' & Heq & Hst)
      end.
      unfold loop in Heq. rewrite Heq.
      eexists (_ :: lg'). rewrite <- app_assoc. split; [reflexivity |].
      cbn. rewrite E. repeat split. exact Hst.
Qed.

End StopFacts.

Section StopChainFacts.

Variables end_heading dist : Q.

Lemma stops_chain_Forall (log : list Step) :
  forall fuel,
    stops_chain end_heading dist fuel log ->
    Forall (fun s => step_distance s = dist /\
                     step_broke s = close_enough (step_direct s) end_heading)
           log.
Proof.
  induction log as [| s log IH]; intros fuel H; constructor.
  - destruct H as (Hd & Hb & _). split; assumption.
  - destruct H as (_ & _ & H). destruct fuel as [| fuel]; [contradiction |].
    destruct (step_broke s).
    + subst log. constructor.
    + exact (IH _ H).
Qed.

Lemma stops_chain_zero (log : list Step) :
  stops_chain end_heading dist 0 log -> log = [].
Proof.
  destruct log as [| s log]; [reflexivity |].
  intros (_ & _ & H). contradiction.
Qed.

(** A run with iterations left logs at least one entry; only the last
    entry can have ended in [break]; if it did not, every iteration ran. *)
Lemma stops_chain_split (log : list Step) :
  forall fuel,
    stops_chain end_heading dist (S fuel) log ->
    exists init last,
      log = init ++ [last] /\
      Forall (fun s => step_broke s = false) init /\
      (step_broke last = true \/ length log = S fuel).
Proof.
  induction log as [| s log IH]; intros fuel H.
  - discriminate H.
  - destruct H as (_ & _ & H).
    destruct (step_broke s) eqn:E.
    + subst log. exists [], s. repeat split; auto.
    + destruct fuel as [| fuel].
      * apply stops_chain_zero in H. subst log.
        exists [], s. repeat split; auto.
      * destruct (IH _ H) as (init & last & -> & Hin & Hl).
        exists (s :: init), last. repeat split.
        -- constructor; assumption.
        -- destruct Hl as [Hl | Hl]; [left; exact Hl |].
           right. cbn [length]. rewrite Hl. reflexivity.
Qed.

End StopChainFacts.

Section SegmentStopFacts.

Variable geod : Geodesic.
Variables start_lat start_lon start_heading end_lat end_lon end_heading : Q.

Let total_distance : Q :=
  s12 (Inverse geod start_lat start_lon end_lat end_lon).

(** The shape of a segment together with the way its loop stopped. *)
Lemma calculate_path_segment_stops :
  exists la lo lg,
    calculate_path_segment_log geod start_lat start_lon start_heading
                               end_lat end_lon end_heading
    = (start_lat :: la, start_lon :: lo, lg) /\
    length la = length lg /\ length lo = length lg /\
    steps_chain start_heading lg /\
    stops_chain end_heading (step_distance_of total_distance)
                (Z.to_nat (n_points_of total_distance)) lg.
Proof.
  destruct (calculate_path_segment_shape geod start_lat start_lon
              start_heading end_lat end_lon end_heading)
    as (la & lo & lg & Heq & Hla & Hlo & _ & _ & Hch & _).
  exists la, lo, lg. repeat split; trivial.
  destruct (segment_loop_stops geod end_lat end_lon end_heading
              (step_distance_of total_distance)
              (Z.to_nat (n_points_of total_distance))
              [start_lat] [start_lon] start_heading [])
    as (lg' & Hsnd & Hst).
  unfold calculate_path_segment_log in Heq. fold total_distance in Heq.
  unfold step_distance_of in Hsnd. rewrite Heq in Hsnd. cbn in Hsnd.
  subst lg'. exact Hst.
Qed.

End SegmentStopFacts.

Section SpacingFacts.

Lemma inject_Z_double (n : Z) : inject_Z (2 * n) == 2 * inject_Z n.
Proof. rewrite inject_Z_mult. reflexivity. Qed.

Lemma n_points_of_bounds (d : Q) :
  let n := inject_Z (n_points_of d) in
  1 <= n /\ (POINT_INTERVAL_METERS <= d ->
             POINT_INTERVAL_METERS * n <= d /\
             d < POINT_INTERVAL_METERS * (n + 1)).
Proof.
  cbv zeta. unfold POINT_INTERVAL_METERS.
  pose proof (n_points_of_pos d) as Hpos.
  split.
  - change 1 with (inject_Z 1). rewrite <- Zle_Qle. exact Hpos.
  - intro Hd. rewrite n_points_of_floor. unfold POINT_INTERVAL_METERS.
    assert (H1 : (1 <= Qfloor (d / 300))%Z).
    { rewrite <- (Qfloor_Z 1). apply Qfloor_resp_le.
      apply Qle_shift_div_l; [reflexivity | change (inject_Z 1) with 1; lra]. }
    rewrite Z.max_r by exact H1.
    pose proof (Qfloor_le (d / 300)) as Fl.
    pose proof (Qlt_floor (d / 300)) as Fh.
    rewrite inject_Z_succ in Fh.
    assert (Hx : d == 300 * (d / 300)) by (field; discriminate).
    set (f := inject_Z (Qfloor (d / 300))) in *.
    set (y := d / 300) in *.
    split; lra.
Qed.

(** Below two point intervals a segment is stepped once. *)
Lemma n_points_of_short (d : Q) :
  d < 2 * POINT_INTERVAL_METERS -> n_points_of d = 1%Z.
Proof.
  unfold POINT_INTERVAL_METERS. intro Hd.
  rewrite n_points_of_floor. unfold POINT_INTERVAL_METERS.
  pose proof (Qfloor_le (d / 300)) as Fl.
  assert (Hy : d / 300 < inject_Z 2).
  { apply Qlt_shift_div_r; [reflexivity | change (inject_Z 2) with 2; lra]. }
  assert (H2 : inject_Z (Qfloor (d / 300)) < inject_Z 2) by lra.
  rewrite <- Zlt_Qlt in H2. lia.
Qed.

(** Line 18 for distances of at least one point interval: between half
    an interval and a whole one. *)
Lemma step_distance_of_bounds (d : Q) :
  POINT_INTERVAL_METERS <= d ->
  POINT_INTERVAL_METERS / 2 <= step_distance_of d /\
  step_distance_of d < POINT_INTERVAL_METERS.
Proof.
  intro Hd. unfold step_distance_of.
  destruct (n_points_of_bounds d) as [Hn Hb].
  destruct (Hb Hd) as [Hlo Hhi]. clear Hb.
  pose proof (inject_Z_double (n_points_of d)) as H2.
  unfold POINT_INTERVAL_METERS in *.
  set (n := inject_Z (n_points_of d)) in *.
  set (m := inject_Z (2 * n_points_of d)) in *.
  split.
  - apply Qle_shift_div_l; [lra |].
    setoid_replace (300 / 2) with 150 by reflexivity. lra.
  - apply Qlt_shift_div_r; lra.
Qed.

(** Line 18 for every distance: less than a point interval. *)
Lemma step_distance_of_below_interval (d : Q) :
  step_distance_of d < POINT_INTERVAL_METERS.
Proof.
  destruct (Qlt_le_dec d (2 * POINT_INTERVAL_METERS)) as [Hs | Hl].
  - unfold step_distance_of. rewrite (n_points_of_short d Hs).
    unfold POINT_INTERVAL_METERS in *.
    apply Qlt_shift_div_r; [reflexivity |].
    change (inject_Z (2 * 1)) with 2. lra.
  - apply step_distance_of_bounds. unfold POINT_INTERVAL_METERS in *. lra.
Qed.

End SpacingFacts.

(** ** The segment stepper: further properties *)

Section SegmentExtras.

Variable geod : Geodesic.
Variables start_lat start_lon start_heading end_lat end_lon end_heading : Q.

Let segment : list Q * list Q :=
  calculate_path_segment geod start_lat start_lon start_heading
                         end_lat end_lon end_heading.

Let log : list Step :=
  segment_log geod start_lat start_lon start_heading
              end_lat end_lon end_heading.

Let total_distance : Q :=
  s12 (Inverse geod start_lat start_lon end_lat end_lon).

(** X6: every call of [geod.Direct] in a segment is given the same
    distance, [total_distance / (2 * n_points)] as computed once on line
    18, and that distance is always less than [POINT_INTERVAL_METERS]. *)
Theorem step_spacing :
  Forall (fun s => step_distance s = step_distance_of total_distance /\
                   step_distance s < POINT_INTERVAL_METERS) log.
Proof.
  unfold log, segment_log.
  destruct (calculate_path_segment_stops geod start_lat start_lon
              start_heading end_lat end_lon end_heading)
    as (la & lo & lg & Heq & _ & _ & _ & Hst).
  rewrite Heq. cbn [snd]. fold total_distance in Hst.
  apply stops_chain_Forall in Hst.
  eapply Forall_impl; [| exact Hst].
  intros s [Hs _]. split; [exact Hs |]. rewrite Hs.
  apply step_distance_of_below_interval.
Qed.

(** X8: the two exits of the loop.  A segment has one point more than
    executed iterations; every iteration but the last failed the test of
    line 36 on the heading it passed on, and the last one either passed
    that test (early termination) or was iteration number [n_points]. *)
Theorem segment_exits :
  length (fst segment) = S (length log) /\
  length (snd segment) = S (length log) /\
  Forall (fun s => step_broke s = close_enough (step_direct s) end_heading)
         log /\
  exists init last,
    log = init ++ [last] /\
    Forall (fun s => close_enough (step_direct s) end_heading = false) init /\
    (close_enough (step_direct last) end_heading = true \/
     Z.of_nat (length log) = n_points_of total_distance).
Proof.
  unfold segment, log, calculate_path_segment, segment_log.
  destruct (calculate_path_segment_stops geod start_lat start_lon
              start_heading end_lat end_lon end_heading)
    as (la & lo & lg & Heq & Hla & Hlo & _ & Hst).
  rewrite Heq. cbn [fst snd length]. fold total_distance in Hst.
  pose proof (n_points_of_pos total_distance) as Hn.
  pose proof (stops_chain_Forall _ _ _ _ Hst) as Hall.
  split; [congruence |]. split; [congruence |]. split.
  { eapply Forall_impl; [| exact Hall]. intros s [_ Hs]. exact Hs. }
  destruct (Z.to_nat (n_points_of total_distance)) as [| fuel] eqn:En; [lia |].
  destruct (stops_chain_split _ _ _ _ Hst) as (init & last & -> & Hin & Hl).
  exists init, last. split; [reflexivity |].
  apply Forall_app in Hall. destruct Hall as [Hinit Hlast].
  split.
  - rewrite Forall_forall in *. intros s Hs.
    destruct (Hinit s Hs) as [_ <-]. exact (Hin s Hs).
  - apply Forall_inv in Hlast. destruct Hlast as [_ Hb].
    destruct Hl as [Hl | Hl]; [left; congruence | right; lia].
Qed.

(** X9: a segment whose oracle distance is below two point intervals,
    the zero distance of coincident end points included, has exactly two
    points: the start point and the result of one call of [geod.Direct]
    from it, over half the oracle distance, with the start heading
    turned towards the target by line 28. *)
Theorem short_segment_has_one_step :
  total_distance < 2 * POINT_INTERVAL_METERS ->
  let heading :=
    start_heading +
    heading_step
      (heading_change
         (azi1 (Inverse geod start_lat start_lon end_lat end_lon))
         start_heading) in
  let new_position :=
    Direct geod start_lat start_lon heading (total_distance / 2) in
  segment = ([start_lat; lat2 new_position], [start_lon; lon2 new_position]).
Proof.
  intro Hd. cbv zeta.
  unfold segment, calculate_path_segment, calculate_path_segment_log.
  fold total_distance. rewrite (n_points_of_short _ Hd).
  change (Z.to_nat 1) with 1%nat. rewrite segment_loop_S.
  destruct (close_enough _ _); reflexivity.
Qed.

End SegmentExtras.

(** ** Backward segments (lines 50-51 and 62-63) *)

Section BackwardSegments.

Variable geod : Geodesic.
Variables end_lat end_lon end_heading target_lat target_lon : Q.

Let segment : list Q * list Q :=
  calculate_path_segment geod end_lat end_lon (reverse_heading end_heading)
                         target_lat target_lon end_heading.

Let total_distance : Q :=
  s12 (Inverse geod end_lat end_lon target_lat target_lon).

(** A heading that has drifted by at most 177 degrees from the reverse of
    [end_heading] fails the test of line 36. *)
Lemma far_from_end_heading (heading : Q) :
  Qabs (heading - reverse_heading end_heading) <= 177 ->
  close_enough heading end_heading = false.
Proof.
  intro Hdrift. unfold close_enough. apply ltb_false_iff.
  apply Qabs_Qle_condition in Hdrift.
  pose proof (mod_360_congruent (end_heading + 180)) as Hr.
  fold (reverse_heading end_heading) in Hr.
  set (k := (- Qfloor ((end_heading + 180) / 360))%Z) in *.
  destruct (Z.le_gt_cases 0 k) as [Hk | Hk].
  - assert (Hq : inject_Z 0 <= inject_Z k) by (rewrite <- Zle_Qle; exact Hk).
    change (inject_Z 0) with 0 in Hq.
    apply Qle_trans with (heading - end_heading); [lra | apply Qle_Qabs].
  - assert (Hq : inject_Z k <= inject_Z (-1)) by (rewrite <- Zle_Qle; lia).
    change (inject_Z (-1)) with (-1) in Hq.
    rewrite <- Qabs_opp.
    apply Qle_trans with (- (heading - end_heading)); [lra | apply Qle_Qabs].
Qed.

(** X10: a backward segment starts from the reverse of [end_heading] but
    is stopped early by the test against [end_heading] itself, which the
    running heading cannot pass before it has turned by about half a
    turn, at most [MAX_TURN_RATE] per step: the segment either runs all
    its [n_points] steps or has at least 61 points. *)
Theorem backward_segment_runs_long :
  Z.of_nat (length (fst segment)) = (n_points_of total_distance + 1)%Z \/
  (61 <= length (fst segment))%nat.
Proof.
  unfold segment, calculate_path_segment.
  destruct (calculate_path_segment_stops geod end_lat end_lon
              (reverse_heading end_heading) target_lat target_lon end_heading)
    as (la & lo & lg & Heq & Hla & Hlo & Hch & Hst).
  rewrite Heq. cbn [fst length]. fold total_distance in Hst.
  pose proof (n_points_of_pos total_distance) as Hn.
  pose proof (stops_chain_Forall _ _ _ _ Hst) as Hall.
  destruct (Z.to_nat (n_points_of total_distance)) as [| fuel] eqn:En; [lia |].
  destruct (stops_chain_split _ _ _ _ Hst) as (init & last & -> & _ & Hl).
  destruct Hl as [Hl | Hl]; [| left; lia].
  right. rewrite Hla, length_app. cbn [length].
  destruct (Nat.lt_ge_cases (length init) 59) as [Hshort | Hlong]; [| lia].
  exfalso.
  assert (Hnth : nth_error (init ++ [last]) (length init) = Some last).
  { rewrite nth_error_app2, Nat.sub_diag by lia. reflexivity. }
  pose proof (steps_chain_drift _ _ _ _ Hch Hnth) as Hdrift.
  apply Forall_app in Hall. destruct Hall as [_ Hlast].
  apply Forall_inv in Hlast. destruct Hlast as [_ Hb].
  rewrite Hl in Hb. symmetry in Hb.
  rewrite far_from_end_heading in Hb; [discriminate |].
  eapply Qle_trans; [exact Hdrift |].
  unfold MAX_TURN_RATE.
  assert (Hi : inject_Z (Z.of_nat (S (length init))) <= inject_Z 59)
    by (rewrite <- Zle_Qle; lia).
  change (inject_Z 59) with 59 in Hi. lra.
Qed.

End BackwardSegments.

(** ** The junction and the second pass (lines 53-63) *)

Section JunctionExtras.

Variable geod : Geodesic.
Variables start_lat start_lon start_heading end_lat end_lon end_heading : Q.

Let p1 := phase_1 geod start_lat start_lon start_heading
                  end_lat end_lon end_heading.
Let p2 := phase_2 geod start_lat start_lon start_heading
                  end_lat end_lon end_heading.
Let junction_lat := end_of_phase_2_lat geod start_lat start_lon start_heading
                                       end_lat end_lon end_heading.
Let junction_lon := end_of_phase_2_lon geod start_lat start_lon start_heading
                                       end_lat end_lon end_heading.

(** X11: when the end point passed in is the configured B, the junction
    is the last point of the first backward segment, and the second pass
    grows the forward segment towards it. *)
Theorem second_pass_targets_backward_tip :
  end_lat == LAT_B -> end_lon == LON_B ->
  junction_lat = Py.last (fst p2) /\ junction_lon = Py.last (snd p2) /\
  phase_1_recalculated geod start_lat start_lon start_heading
                       end_lat end_lon end_heading
  = calculate_path_segment geod start_lat start_lon start_heading
                           (Py.last (fst p2)) (Py.last (snd p2)) end_heading.
Proof.
  intros Hlat Hlon.
  destruct (junction_for_configured_B geod start_lat start_lon start_heading
              end_lat end_lon end_heading Hlat Hlon) as [E1 E2].
  unfold junction_lat, junction_lon, p2, phase_1_recalculated.
  rewrite E1, E2. repeat split.
Qed.

(** X12: lines 53 and 54 select the two coordinates of the junction
    independently: when the end point has the configured B's latitude but
    another longitude, the junction takes its latitude from the last
    point of the first backward segment and its longitude from the end
    point. *)
Theorem junction_mixes_coordinates :
  end_lat == LAT_B -> ~ end_lon == LON_B ->
  junction_lat = Py.last (fst p2) /\ junction_lon = end_lon.
Proof.
  intros Hlat Hlon.
  unfold junction_lat, junction_lon, p2, end_of_phase_2_lat,
    end_of_phase_2_lon, phase_2.
  destruct (segment_cons geod end_lat end_lon (reverse_heading end_heading)
              (Py.last (fst (phase_1 geod start_lat start_lon start_heading
                                     end_lat end_lon end_heading)))
              (Py.last (snd (phase_1 geod start_lat start_lon start_heading
                                     end_lat end_lon end_heading)))
              end_heading)
    as (p & la & q & lo & Heq & _).
  rewrite Heq. cbn [fst snd Py.first hd].
  rewrite (Qeq_eq_bool LAT_B end_lat) by (symmetry; assumption).
  destruct (Qeq_bool LON_B end_lon) eqn:E;
    [apply Qeq_bool_eq in E; symmetry in E; contradiction |].
  split; reflexivity.
Qed.

(** X13: when neither coordinate of the end point equals the configured
    B's, the junction is the end point itself, so the second pass repeats
    the first and the returned path is the first forward segment followed
    by the first backward segment reversed. *)
Theorem second_pass_repeats_first :
  ~ end_lat == LAT_B -> ~ end_lon == LON_B ->
  phase_1_recalculated geod start_lat start_lon start_heading
                       end_lat end_lon end_heading = p1 /\
  phase_2_recalculated geod start_lat start_lon start_heading
                       end_lat end_lon end_heading = p2 /\
  generate_complete_path geod start_lat start_lon start_heading
                         end_lat end_lon end_heading
  = (fst p1 ++ rev (fst p2), snd p1 ++ rev (snd p2)).
Proof.
  intros Hlat Hlon.
  destruct (junction_for_other_B geod start_lat start_lon start_heading
              end_lat end_lon end_heading Hlat Hlon) as [E1 E2].
  assert (H1 : phase_1_recalculated geod start_lat start_lon start_heading
                                    end_lat end_lon end_heading = p1).
  { unfold phase_1_recalculated. rewrite E1, E2. reflexivity. }
  assert (H2 : phase_2_recalculated geod start_lat start_lon start_heading
                                    end_lat end_lon end_heading = p2).
  { unfold phase_2_recalculated. rewrite H1. reflexivity. }
  split; [exact H1 |]. split; [exact H2 |].
  unfold generate_complete_path. rewrite H2, H1. reflexivity.
Qed.

End JunctionExtras.

(** ** The moving target (lines 23-24) *)

Section TargetFacts.

Variable geod : Geodesic.
Variables end_lat end_lon end_heading step_distance_ : Q.

Let loop := segment_loop geod end_lat end_lon end_heading step_distance_.

Lemma segment_loop_targets fuel :
  forall lats lons heading log,
  exists la lo lg,
    loop fuel lats lons heading log = (lats ++ la, lons ++ lo, log ++ lg) /\
    targets_chain geod end_lat end_lon (Py.last lats) (Py.last lons) la lo lg.
Proof.
  induction fuel as [| fuel IH]; intros lats lons heading log.
  - exists [], [], []. rewrite !app_nil_r. split; reflexivity.
  - unfold loop. rewrite segment_loop_S.
    destruct (close_enough _ _).
    + eexists [_], [_], [_]. split; [reflexivity |]. cbn. auto.
    + match goal with
      | |- context [segment_loop _ _ _ _ _ _ ?la ?lo ?h ?lg] =>
          destruct (IH la lo h lg) as (la' & lo' & lg' & Heq & Hch)
      end.
      unfold loop in Heq. rewrite Heq.
      eexists (_ :: la'), (_ :: lo'), (_ :: lg').
      rewrite <- !app_assoc. split; [reflexivity |].
      unfold Py.last in Hch. rewrite !last_last in Hch.
      cbn. split; [reflexivity | exact Hch].
Qed.

End TargetFacts.

Section TargetExtras.

Variable geod : Geodesic.
Variables start_lat start_lon start_heading end_lat end_lon end_heading : Q.

(** X16: the bearing to the target is recomputed at every step: each
    step asks the oracle for the bearing from the point appended by the
    previous step (the start point for the first step) to the same fixed
    end point, and each appended point is the oracle's answer for a move
    from that point. *)
Theorem bearing_recomputed_each_step :
  exists lats lons,
    calculate_path_segment geod start_lat start_lon start_heading
                           end_lat end_lon end_heading
    = (start_lat :: lats, start_lon :: lons) /\
    targets_chain geod end_lat end_lon start_lat start_lon lats lons
                  (segment_log geod start_lat start_lon start_heading
                               end_lat end_lon end_heading) /\
    points_chain geod start_lat start_lon lats lons
                 (segment_log geod start_lat start_lon start_heading
                              end_lat end_lon end_heading).
Proof.
  unfold calculate_path_segment, segment_log.
  destruct (calculate_path_segment_shape geod start_lat start_lon
              start_heading end_lat end_lon end_heading)
    as (la & lo & lg & Heq & _ & _ & _ & _ & _ & Hpt).
  rewrite Heq. cbn [fst snd]. exists la, lo.
  split; [reflexivity |]. split; [| exact Hpt].
  unfold calculate_path_segment_log in Heq.
  match type of Heq with
  | segment_loop _ _ _ _ ?sd ?fuel _ _ _ _ = _ =>
      destruct (segment_loop_targets geod end_lat end_lon end_heading sd fuel
                  [start_lat] [start_lon] start_heading [])
        as (la' & lo' & lg' & Heq' & Hch)
  end.
  rewrite Heq in Heq'. cbn in Heq'. injection Heq' as <- <- <-.
  exact Hch.
Qed.

End TargetExtras.

(** ** What is printed (lines 75-76 and 104-108) *)

Section PresentationExtras.

Variable geod : Geodesic.

(** The returned path, as two lists: A, the interior, B. *)
Lemma generate_complete_path_shape (a b h c d e : Q) :
  exists mid_lats mid_lons,
    generate_complete_path geod a b h c d e
    = (a :: mid_lats ++ [c], b :: mid_lons ++ [d]) /\
    length mid_lats = length mid_lons.
Proof.
  unfold generate_complete_path, phase_2_recalculated, phase_1_recalculated.
  set (jlat := end_of_phase_2_lat _ _ _ _ _ _ _).
  set (jlon := end_of_phase_2_lon _ _ _ _ _ _ _).
  destruct (segment_cons geod a b h jlat jlon e)
    as (p & la & q & lo & Heq1 & Hl1).
  rewrite Heq1.
  destruct (segment_cons geod c d (reverse_heading e)
              (Py.last (fst (a :: p :: la, b :: q :: lo)))
              (Py.last (snd (a :: p :: la, b :: q :: lo))) e)
    as (p2 & la2 & q2 & lo2 & Heq2 & Hl2).
  rewrite Heq2. cbn [fst snd].
  exists (p :: la ++ rev la2 ++ [p2]), (q :: lo ++ rev lo2 ++ [q2]).
  split.
  - rewrite !rev_cons2. cbn [app]. rewrite <- !app_assoc. reflexivity.
  - cbn [length]. rewrite !length_app, !length_rev. cbn [length]. lia.
Qed.

Lemma combine_app_same (l1 l2 m1 m2 : list Q) :
  length l1 = length m1 ->
  combine (l1 ++ l2) (m1 ++ m2) = combine l1 m1 ++ combine l2 m2.
Proof.
  revert m1. induction l1 as [| x l1 IH]; intros [| y m1] H;
    try discriminate; [reflexivity |].
  cbn. f_equal. apply IH. cbn in H. lia.
Qed.

(** The printed tuple: (A), the interior pairs, (B), nothing dropped. *)
Lemma printed_points_shape (a b h c d e : Q) :
  exists mid,
    printed_points geod a b h c d e = (a, b) :: mid ++ [(c, d)] /\
    length (printed_points geod a b h c d e)
    = length (fst (generate_complete_path geod a b h c d e)) /\
    length (printed_points geod a b h c d e)
    = length (snd (generate_complete_path geod a b h c d e)) /\
    split (printed_points geod a b h c d e)
    = generate_complete_path geod a b h c d e.
Proof.
  unfold printed_points.
  destruct (generate_complete_path_shape a b h c d e)
    as (ml & mo & Heq & Hlen).
  rewrite Heq. cbn [fst snd].
  assert (Hfull : length (a :: ml ++ [c]) = length (b :: mo ++ [d])).
  { cbn [length]. rewrite !length_app. cbn [length]. lia. }
  exists (combine ml mo). repeat split.
  - cbn [combine]. rewrite combine_app_same by exact Hlen. reflexivity.
  - rewrite length_combine, <- Hfull. apply Nat.min_id.
  - rewrite length_combine, Hfull. apply Nat.min_id.
  - apply combine_split, Hfull.
Qed.

(** X14: the tuple printed by [plot_curved_path] pairs every latitude of
    the path with its longitude: [zip] drops nothing (it has as many pairs
    as the path has latitudes and longitudes, and unzipping it gives the
    path back), its first pair is A and its last pair is B. *)
Theorem printed_points_are_the_path
        (start_lat start_lon start_heading end_lat end_lon end_heading : Q) :
  let path := generate_complete_path geod start_lat start_lon start_heading
                                     end_lat end_lon end_heading in
  let printed := printed_points geod start_lat start_lon start_heading
                                end_lat end_lon end_heading in
  length printed = length (fst path) /\
  length printed = length (snd path) /\
  split printed = path /\
  exists mid,
    printed = (start_lat, start_lon) :: mid ++ [(end_lat, end_lon)].
Proof.
  cbv zeta.
  destruct (printed_points_shape start_lat start_lon start_heading
              end_lat end_lon end_heading)
    as (mid & Heq & Hl1 & Hl2 & Hsplit).
  repeat split; trivial.
  exists mid. exact Heq.
Qed.

(** X15: the script prints eight paths, one per heading pair of
    [direction_data]; whatever the oracle returns, each of them starts at
    the configured A and ends at the configured B. *)
Theorem script_prints_eight_paths :
  length (script_output geod) = 8%nat /\
  Forall (fun printed =>
            exists mid,
              printed = (LAT_A, LON_A) :: mid ++ [(LAT_B, LON_B)])
         (script_output geod).
Proof.
  split; [reflexivity |].
  unfold script_output. apply Forall_map, Forall_forall.
  intros [h1 h2] _. cbn [fst snd].
  destruct (printed_points_shape LAT_A LON_A h1 LAT_B LON_B h2)
    as (mid & Heq & _).
  exists mid. exact Heq.
Qed.

End PresentationExtras.

(** ** Instances on the stub oracle *)

(** X6 on a run with three calls of [geod.Direct]: 1110 metres along the
    track with a final heading the segment never reaches, stepped in
    three steps of 185 metres each. *)
Lemma step_spacing_three_steps :
  map step_distance (segment_log Track.oracle 0 0 90 0 (1 # 100) 0)
  = [1110 # 6; 1110 # 6; 1110 # 6] /\
  step_distance_of (s12 (Inverse Track.oracle 0 0 0 (1 # 100))) == 185.
Proof.
  split; [vm_compute; reflexivity | reflexivity].
Qed.

(** X9, an instance: coincident end points, distance zero. *)
Lemma short_segment_has_one_step_witness :
  s12 (Inverse Track.oracle LAT_B LON_B LAT_B LON_B)
  < 2 * POINT_INTERVAL_METERS /\
  length (fst (calculate_path_segment Track.oracle LAT_B LON_B 90
                                      LAT_B LON_B 90)) = 2%nat.
Proof.
  assert (H : s12 (Inverse Track.oracle LAT_B LON_B LAT_B LON_B)
              < 2 * POINT_INTERVAL_METERS) by reflexivity.
  split; [exact H |].
  rewrite (short_segment_has_one_step Track.oracle LAT_B LON_B 90
             LAT_B LON_B 90 H).
  reflexivity.
Defined.

(** X11, an instance: towards the configured B. *)
Lemma second_pass_targets_backward_tip_witness :
  LAT_B == LAT_B /\ LON_B == LON_B /\
  end_of_phase_2_lon Track.oracle LAT_B (492 # 100) 90 LAT_B LON_B 90
  = Py.last (snd (phase_2 Track.oracle LAT_B (492 # 100) 90 LAT_B LON_B 90)).
Proof.
  assert (H1 : LAT_B == LAT_B) by reflexivity.
  assert (H2 : LON_B == LON_B) by reflexivity.
  split; [exact H1 |]. split; [exact H2 |].
  exact (proj1 (proj2 (second_pass_targets_backward_tip Track.oracle
                         LAT_B (492 # 100) 90 LAT_B LON_B 90 H1 H2))).
Defined.

(** X12, an instance: the configured B's latitude, another longitude. *)
Lemma junction_mixes_coordinates_witness :
  LAT_B == LAT_B /\ ~ (1 # 100) == LON_B /\
  end_of_phase_2_lon Track.oracle LAT_B 0 90 LAT_B (1 # 100) 90 = 1 # 100.
Proof.
  assert (H1 : LAT_B == LAT_B) by reflexivity.
  assert (H2 : ~ (1 # 100) == LON_B) by (vm_compute; discriminate).
  split; [exact H1 |]. split; [exact H2 |].
  exact (proj2 (junction_mixes_coordinates Track.oracle
                  LAT_B 0 90 LAT_B (1 # 100) 90 H1 H2)).
Defined.

(** X13, an instance: an end point away from the configured B. *)
Lemma second_pass_repeats_first_witness :
  ~ 0 == LAT_B /\ ~ (1 # 100) == LON_B /\
  phase_1_recalculated Track.oracle 0 0 90 0 (1 # 100) 90
  = phase_1 Track.oracle 0 0 90 0 (1 # 100) 90.
Proof.
  assert (H1 : ~ 0 == LAT_B) by (vm_compute; discriminate).
  assert (H2 : ~ (1 # 100) == LON_B) by (vm_compute; discriminate).
  split; [exact H1 |]. split; [exact H2 |].
  exact (proj1 (second_pass_repeats_first Track.oracle
                  0 0 90 0 (1 # 100) 90 H1 H2)).
Defined.
